(** * Range derivation after an operation: [createRangefromOp]

    Shallow embedding of [packages/selection/src/utils/op.ts].  The function
    receives an applied operation together with the node it targeted and
    computes the selection range that follows the mutation.

    The definitions come first: the data model (nodes, operations,
    ranges), the drill-down loop and [createRangefromOp] itself, a node
    constructor to run examples with, and the placement helpers of
    [packages/plugins/ui/src/popper.tsx].  The properties of the derived
    range and of the placement helpers follow. *)

From Equations Require Import Equations.
From Equations.Prop Require Import Logic.
From Stdlib Require Import List ZArith Ascii String DecimalString Lia Arith.
From Stdlib Require Import Sorted.
Import ListNotations.
Open Scope Z_scope.
Open Scope string_scope.

(* ===================================================================== *)
(** ** Data model *)
(* ===================================================================== *)

(** Keys are opaque identifiers; the code passes them around as strings. *)
Definition Key := string.

(** A free-form attribute record (formatting of a Text, data of an
    Element): an association list, order preserved. *)
Definition Data := list (string * string).

(** [s.length] of a JavaScript string.  One character of the Rocq string
    stands for one code unit. *)
Definition js_length (s : string) : Z := Z.of_nat (String.length s).

(** The IME buffer of a Text node: [{ text, offset }], read at line 19. *)
Record Composition := mkComposition {
  comp_text : string;
  comp_offset : Z
}.

(** Modelled from the spec: the node classes of [@editablejs/model], which
    are imported by op.ts but not defined there.  A node is a Text leaf
    (key, string payload, formatting record, optional composition) or an
    Element (key, data record, ordered children). *)
Record TextInterface := mkText {
  text_key : Key;
  text_text : string;
  text_format : Data;
  text_composition : option Composition
}.

#[warnings="-register-all"]
Inductive NodeInterface :=
| TextNode (t : TextInterface)
| ElementNode (key : Key) (data : Data) (children : list NodeInterface).

(** [node.getKey()] on a node that exists. *)
Definition getKey (n : NodeInterface) : Key :=
  match n with
  | TextNode t => text_key t
  | ElementNode k _ _ => k
  end.

Module Text.
(** [Text.isText(node)] *)
Definition isText (n : NodeInterface) : bool :=
  match n with TextNode _ => true | ElementNode _ _ _ => false end.

(** [textNode.getText()] *)
Definition getText (t : TextInterface) : string := text_text t.

(** [textNode.getComposition()], absent when no composition is active. *)
Definition getComposition (t : TextInterface) : option Composition :=
  text_composition t.
End Text.

Module Element.
(** [Element.isElement(node)] *)
Definition isElement (n : NodeInterface) : bool :=
  match n with TextNode _ => false | ElementNode _ _ _ => true end.

Definition getChildren (n : NodeInterface) : list NodeInterface :=
  match n with TextNode _ => [] | ElementNode _ _ cs => cs end.

(** [element.getChildrenSize()]: the child count. *)
Definition getChildrenSize (n : NodeInterface) : Z :=
  Z.of_nat (List.length (getChildren n)).

(** The last entry of a child list, absent when the list is empty. *)
Fixpoint last_of (cs : list NodeInterface) : option NodeInterface :=
  match cs with
  | [] => None
  | [c] => Some c
  | _ :: cs' => last_of cs'
  end.

(** [element.last()]: the last child, absent for an empty Element. *)
Definition last (n : NodeInterface) : option NodeInterface :=
  last_of (getChildren n).
End Element.

(** Height of a subtree, counted in parent-to-child edges: a Text and an
    empty Element have depth 0. *)
Fixpoint depth (n : NodeInterface) : nat :=
  match n with
  | TextNode _ => 0%nat
  | ElementNode _ _ cs =>
      match cs with
      | [] => 0%nat
      | _ :: _ => S (list_max (map depth cs))
      end
  end.

(** Modelled from the spec: the value record accepted by [createNode]
    (section 6): [{ text, ...formatting }] for a Text leaf and
    [{ type, children, ...data }] for an Element. *)
#[warnings="-register-all"]
Inductive NodeValue :=
| TextValue (text : string) (format : Data)
| ElementValue (type : string) (children : list NodeValue) (data : Data).

(** Modelled from the spec: the [Op] record of [@editablejs/model] and the
    operation constants of [@editablejs/constants] (sections 4.2 and 6).
    The type tag carries the payload of its kind; [OP_OTHER] stands for any
    tag that is none of the five constants tested by the [switch]. *)
Inductive OpType :=
| OP_UPDATE_FORMAT (data : Data)
| OP_UPDATE_DATA (data : Data)
| OP_INSERT_TEXT (value : string)
| OP_DELETE_TEXT (length : Z)
| OP_INSERT_NODE (value : NodeValue)
| OP_OTHER (tag : string).

(** The argument of [createRangefromOp]: [Op & Record<'node', NodeInterface>].
    Offsets are character or child counts, hence integers.  The function
    takes the key from the node and never reads [op.key].  The node
    reference may be absent at run time, which line 29 tests. *)
Record Op := mkOp {
  op_type : OpType;
  op_key : Key;
  op_offset : Z;
  op_node : option NodeInterface
}.

(** Modelled from the spec: the [Range] class of [../range], an anchor and
    a focus, each a (key, offset). *)
Record Range := mkRange {
  anchorKey : Key;
  anchorOffset : Z;
  focusKey : Key;
  focusOffset : Z
}.

Module RangeCtor.
(** [new Range(key, offset)]: without a focus the range is collapsed. *)
Definition collapsed (key : Key) (offset : Z) : Range :=
  mkRange key offset key offset.

(** [new Range(anchorKey, anchorOffset, focusKey, focusOffset)] *)
Definition span (ak : Key) (ao : Z) (fk : Key) (fo : Z) : Range :=
  mkRange ak ao fk fo.
End RangeCtor.

(* ===================================================================== *)
(** ** Completions: a result or a thrown failure *)
(* ===================================================================== *)

Inductive Failure :=
| TypeError                      (* a method call on an absent reference *)
| NodeNotFound (key : Key).      (* raised by [Log.nodeNotFound] *)

Inductive Completion (A : Type) :=
| Returns (a : A)
| Throws (e : Failure).

Arguments Returns {A} a.
Arguments Throws {A} e.

Definition bind {A B : Type} (c : Completion A) (k : A -> Completion B)
  : Completion B :=
  match c with
  | Returns a => k a
  | Throws e => Throws e
  end.

Notation "x <- c ;; k" := (bind c (fun x => k))
  (at level 61, c at next level, right associativity).
Notation "c ;;; k" := (bind c (fun _ => k))
  (at level 61, right associativity).

Module Log.
(** Modelled from the spec: [Log.nodeNotFound] of [@editablejs/utils]
    raises a node-not-found failure tagged with the key. *)
Definition nodeNotFound (key : Key) : Completion unit :=
  Throws (NodeNotFound key).
End Log.

(** [node.getKey()] through a reference that may be absent. *)
Definition refGetKey (node : option NodeInterface) : Completion Key :=
  match node with
  | Some n => Returns (getKey n)
  | None => Throws TypeError
  end.

(* ===================================================================== *)
(** ** The drill-down loop (lines 39-49) *)
(* ===================================================================== *)

(** [createRange] of line 33: the caret at the end of a Text node. *)
Definition createRange (textNode : TextInterface) : Range :=
  RangeCtor.collapsed (text_key textNode)
                      (js_length (Text.getText textNode)).

(** What one pass through the loop does: go round again with the last
    child and the updated [key] and [offset], leave the loop with [key] and
    [offset] as they are, or return a range from inside the loop. *)
Inductive LoopStep :=
| Continue (child : NodeInterface) (key : Key) (offset : Z)
| Break (key : Key) (offset : Z)
| ReturnFrom (last : TextInterface) (r : Range).

(** The loop test of line 39 followed by the body, lines 40-48. *)
Definition loop_body (child : NodeInterface) (key : Key) (offset : Z)
  : LoopStep :=
  if negb (Element.isElement child) then Break key offset   (* line 39 *)
  else
    match Element.last child with                           (* line 40 *)
    | None => Break key offset                              (* line 41 *)
    | Some last =>
        let key := getKey child in                          (* line 42 *)
        let offset := Element.getChildrenSize child in      (* line 43 *)
        match last with
        | TextNode t => ReturnFrom t (createRange t)        (* line 45 *)
        | ElementNode _ _ _ => Continue last key offset     (* line 47 *)
        end
    end.

(** How the loop is left: by a [return] inside it, or by falling out of it
    with the current [key] and [offset]. *)
Inductive LoopExit :=
| Returned (r : Range)
| FellOut (key : Key) (offset : Z).

(** The range returned once the loop is left: the one of line 45, or at
    line 53 the collapsed range at the current [key] and [offset]. *)
Definition rangeOfExit (e : LoopExit) : Range :=
  match e with
  | Returned r => r                                       (* line 45 *)
  | FellOut key offset => RangeCtor.collapsed key offset  (* line 53 *)
  end.

(** The outcome of a loop run together with the nodes it looked at, in
    order. *)
Definition LoopRun : Type := LoopExit * list NodeInterface.

Definition visit (n : NodeInterface) (run : LoopRun) : LoopRun :=
  (fst run, n :: snd run).

(** [while(child && Element.isElement(child)) { ... }]: the body is run
    again as long as it asks to continue.  The recursion is on the
    remaining depth of [child]. *)
Equations? while_loop (child : NodeInterface) (key : Key) (offset : Z)
  : LoopRun by wf (depth child) lt :=
  while_loop child key offset with inspect (loop_body child key offset) := {
    | exist _ (Continue child' key' offset') Hstep =>
        visit child (while_loop child' key' offset')
    | exist _ (Break key' offset') _ =>
        (FellOut key' offset', [child])
    | exist _ (ReturnFrom last r) _ =>
        (Returned r, [child; TextNode last])
  }.
Proof.
  (* what is left to show: [depth child' < depth child] *)
  clear while_loop. unfold loop_body in Hstep.
  destruct child as [t|k d cs]; simpl in Hstep; [discriminate|].
  destruct (Element.last (ElementNode k d cs)) as [l|] eqn:Hlast;
    [|discriminate].
  destruct l; [discriminate|]. injection Hstep as <- _ _.
  unfold Element.last in Hlast. simpl in Hlast.
  destruct cs as [|c cs]; [discriminate|].
  cbn [depth]. apply Nat.lt_succ_r.
  revert c Hlast. induction cs as [|c' cs IH]; intros c Hlast.
  - injection Hlast as ->. simpl. lia.
  - specialize (IH c' Hlast). simpl in *. lia.
Qed.

(* ===================================================================== *)
(** ** [createRangefromOp] *)
(* ===================================================================== *)

(** How the [switch] is left: a value is returned from inside it
    ([return]; at line 21 without a value), or a [break] leads to the
    statement after it. *)
Inductive SwitchExit :=
| ReturnValue (r : option Range)
| BreakSwitch.

Section CreateRangeFromOp.

(** [createNode] of [@editablejs/model] is imported, not defined, by
    op.ts.  It is called once, at line 31; what it builds from a value,
    if anything, is left open here. *)
Variable createNode : NodeValue -> option NodeInterface.

(** The [OP_INSERT_NODE] case once the target is known to be an Element,
    lines 31-50. *)
Definition insertNodeCase (value : NodeValue) (key : Key) (offset : Z)
  : Range :=
  match createNode value with                             (* line 31 *)
  | Some child =>                                         (* line 32 *)
      match child with
      | TextNode t => createRange t                       (* line 37 *)
      | ElementNode _ _ _ =>                              (* line 39 *)
          rangeOfExit (fst (while_loop child key offset))
      end
  | None => RangeCtor.collapsed key offset                (* line 53 *)
  end.

Definition createRangefromOp (op : Op) : Completion (option Range) :=
  let node := op_node op in                               (* line 7 *)
  key <- refGetKey node ;;                                (* line 8 *)
  let offset := op_offset op in                           (* line 9 *)
  exit <-
    match op_type op with                                 (* line 10 *)
    | OP_UPDATE_FORMAT _ =>
        match node with
        | Some (TextNode t) =>
            let text := Text.getText t in                 (* line 13 *)
            Returns (ReturnValue
              (Some (RangeCtor.span key 0 key (js_length text))))
        | _ => Returns BreakSwitch                        (* line 12 *)
        end
    | OP_UPDATE_DATA _ =>
        match node with
        | Some (TextNode t) =>                            (* line 16 *)
            match Text.getComposition t with              (* line 17 *)
            | Some composition =>
                let text := comp_text composition in      (* line 19 *)
                let offset := comp_offset composition in
                Returns (ReturnValue
                  (Some (RangeCtor.collapsed key (offset + js_length text))))
            | None => Returns (ReturnValue None)          (* line 21 *)
            end
        | _ => Returns BreakSwitch                        (* line 23 *)
        end
    | OP_INSERT_TEXT value =>                             (* line 25 *)
        Returns (ReturnValue
          (Some (RangeCtor.collapsed key (offset + js_length value))))
    | OP_DELETE_TEXT _ =>                                 (* line 27 *)
        Returns (ReturnValue (Some (RangeCtor.collapsed key offset)))
    | OP_INSERT_NODE value =>
        match node with                                   (* line 29 *)
        | None => Log.nodeNotFound key
        | Some _ => Returns tt
        end ;;;
        match node with
        | Some (ElementNode _ _ _) =>                     (* line 30 *)
            Returns (ReturnValue
              (Some (insertNodeCase value key offset)))
        | _ =>                                            (* line 53 *)
            Returns (ReturnValue (Some (RangeCtor.collapsed key offset)))
        end
    | OP_OTHER _ => Returns BreakSwitch
    end ;;
  match exit with
  | ReturnValue r => Returns r
  | BreakSwitch =>                                        (* line 55 *)
      Returns (Some (RangeCtor.collapsed key offset))
  end.

End CreateRangeFromOp.

(* ===================================================================== *)
(** ** A node constructor to run the function on examples *)
(* ===================================================================== *)

(** The key given to the [n]-th node created: "k0", "k1", ... *)
Definition freshKey (n : nat) : Key :=
  "k" ++ NilEmpty.string_of_uint (Nat.to_uint n).

(** Modelled from the spec: [createNode] of [@editablejs/model], which is
    not defined in op.ts.  It builds a Text from [{ text, ...formatting }]
    and an Element, children included, from [{ type, children, ...data }];
    every node receives a key of its own at creation, here taken from a
    counter in document order. *)
Fixpoint createNodeFrom (value : NodeValue) (next : nat)
  : NodeInterface * nat :=
  match value with
  | TextValue text format =>
      (TextNode (mkText (freshKey next) text format None), S next)
  | ElementValue type children data =>
      let build :=
        fix build (vs : list NodeValue) (n : nat)
          : list NodeInterface * nat :=
          match vs with
          | [] => ([], n)
          | v :: vs' =>
              let (c, n1) := createNodeFrom v n in
              let (cs, n2) := build vs' n1 in
              (c :: cs, n2)
          end in
      let (cs, next') := build children (S next) in
      (ElementNode (freshKey next) (("type", type) :: data) cs, next')
  end.

Definition createNodeFresh (value : NodeValue) : option NodeInterface :=
  Some (fst (createNodeFrom value 0)).

(** The value of scenario B: [{type: "paragraph", children: [{text: "Hi"}]}]. *)
Definition paragraphHi : NodeValue :=
  ElementValue "paragraph" [TextValue "Hi" []] [].

(** Sample nodes. *)
Definition emptyE1 : NodeInterface := ElementNode "E1" [] [].
Definition textT1 : NodeInterface := TextNode (mkText "T1" "Hello" [] None).

(** Sample values: an Element without children, and an Element whose last
    child is an Element without children. *)
Definition emptyValue : NodeValue := ElementValue "paragraph" [] [].
Definition nestedValue : NodeValue :=
  ElementValue "a" [TextValue "q" []; ElementValue "b" [] []] [].

(** InsertNode of [value] at [offset] into the empty Element "E1". *)
Definition insertInto (value : NodeValue) (offset : Z) : Op :=
  mkOp (OP_INSERT_NODE value) "E1" offset (Some emptyE1).

(* ===================================================================== *)
(** ** Last-child chains and runs of the loop *)
(* ===================================================================== *)

(** [LastChain n m]: [m] is reached from [n] by taking the last child zero
    or more times. *)
Inductive LastChain : NodeInterface -> NodeInterface -> Prop :=
| chain_here (n : NodeInterface) : LastChain n n
| chain_down (n l m : NodeInterface) :
    Element.last n = Some l -> LastChain l m -> LastChain n m.

(** The loop as a step relation over [loop_body]: [LoopRuns child key
    offset run] holds when the loop started on [child] with the variables
    [key] and [offset] comes to an end, leaving as [fst run] says after
    looking at the nodes [snd run]. *)
Inductive LoopRuns : NodeInterface -> Key -> Z -> LoopRun -> Prop :=
| runs_break (child : NodeInterface) (key : Key) (offset : Z)
             (key' : Key) (offset' : Z) :
    loop_body child key offset = Break key' offset' ->
    LoopRuns child key offset (FellOut key' offset', [child])
| runs_return (child : NodeInterface) (key : Key) (offset : Z)
              (last : TextInterface) (r : Range) :
    loop_body child key offset = ReturnFrom last r ->
    LoopRuns child key offset (Returned r, [child; TextNode last])
| runs_continue (child : NodeInterface) (key : Key) (offset : Z)
                (child' : NodeInterface) (key' : Key) (offset' : Z)
                (run : LoopRun) :
    loop_body child key offset = Continue child' key' offset' ->
    LoopRuns child' key' offset' run ->
    LoopRuns child key offset (visit child run).

(* ===================================================================== *)
(** ** Notions to describe the derived range *)
(* ===================================================================== *)


(** The nodes of a subtree, root first, in document order. *)
Fixpoint subtree (n : NodeInterface) : list NodeInterface :=
  n :: match n with
       | TextNode _ => []
       | ElementNode _ _ cs => flat_map subtree cs
       end.

(** The offset of the end of a node, in the unit of the node: the length
    of the text of a Text, the child count of an Element. *)
Definition extent (n : NodeInterface) : Z :=
  match n with
  | TextNode t => js_length (Text.getText t)
  | ElementNode _ _ _ => Element.getChildrenSize n
  end.

(** Every node of the list but the first is the last child of the one
    before it. *)
Fixpoint lastLinked (l : list NodeInterface) : Prop :=
  match l with
  | a :: (b :: _) as rest => Element.last a = Some b /\ lastLinked rest
  | _ => True
  end.

(* ===================================================================== *)
(** ** The placement helpers of [packages/plugins/ui/src/popper.tsx] *)
(* ===================================================================== *)

Module Popper.

(** Lines 34-35.  A [Side] is one of the strings of [SIDE_OPTIONS], an
    [Align] one of the strings of [ALIGN_OPTIONS]. *)
Definition SIDE_OPTIONS : list string := ["top"; "right"; "bottom"; "left"].
Definition ALIGN_OPTIONS : list string := ["start"; "center"; "end"].

(** [s.split(sep)] for a separator of one character: the pieces of [s]
    between the separators, of which there is always a first one. *)
Fixpoint split (sep : Ascii.ascii) (s : string) : string * list string :=
  match s with
  | EmptyString => ("", [])
  | String c s' =>
      let (piece, pieces) := split sep s' in
      if Ascii.eqb c sep then ("", piece :: pieces)
      else (String c piece, pieces)
  end.

(** The separator of a placement, ['-']. *)
Definition dash : Ascii.ascii := "-"%char.

(** Whether the character occurs in the string. *)
Fixpoint contains (c : Ascii.ascii) (s : string) : bool :=
  match s with
  | EmptyString => false
  | String c' s' => Ascii.eqb c' c || contains c s'
  end.

(** The pieces after the first, each written after a separator. *)
Fixpoint joinTail (sep : Ascii.ascii) (pieces : list string) : string :=
  match pieces with
  | [] => ""
  | piece :: pieces' => String sep (piece ++ joinTail sep pieces')
  end.

(** Line 200: [side + (align !== 'center' ? '-' + align : '')]. *)
Definition desiredPlacement (side align : string) : string :=
  side ++ (if negb (align =? "center") then "-" ++ align else "").

(** Lines 455-458.  The casts [as Side] and [as Align] check nothing: the
    two pieces are returned as they are. *)
Definition getSideAndAlignFromPlacement (placement : string)
  : string * string :=
  let (side, rest) := split dash placement in
  let align := match rest with
               | align :: _ => align
               | [] => "center"                          (* the default *)
               end in
  (side, align).

(** [table[key]] for a table written as an object literal, for a key of
    the type the table is declared for: the entry, or nothing when the
    literal does not name the key. *)
Fixpoint lookup (table : list (string * string)) (key : string)
  : option string :=
  match table with
  | [] => None
  | (k, v) :: table' => if k =? key then Some v else lookup table' key
  end.

(** Lines 348-353. *)
Definition OPPOSITE_SIDE : list (string * string) :=
  [("top", "bottom"); ("right", "left"); ("bottom", "top"); ("left", "right")].

(** Lines 410-416: [value !== undefined] and [value !== null]; the absent
    value is [None] in both. *)
Definition isDefined {T : Type} (value : option T) : bool :=
  match value with Some _ => true | None => false end.

Definition isNotNull {T : Type} (value : option T) : bool :=
  match value with Some _ => true | None => false end.

Section Boundaries.

(** The DOM elements and the padding are passed through untouched. *)
Variable Elem : Type.
Variable Padding : Type.

(** [type Boundary = Element | null] *)
Definition Boundary : Type := option Elem.

(** The prop [collisionBoundary?: Boundary | Boundary[]]. *)
Inductive CollisionBoundary :=
| OneBoundary (b : Boundary)
| ManyBoundaries (bs : list Boundary).

Record DetectOverflowOptions := mkDetectOverflowOptions {
  padding : Padding;
  boundary : list Boundary;
  altBoundary : bool
}.

(** Lines 182 and 207-215: the prop defaults to the empty array, a single
    boundary is wrapped into an array, and the options are built. *)
Definition detectOverflowOptions
           (collisionBoundaryProp : option CollisionBoundary)
           (collisionPadding : Padding) : DetectOverflowOptions :=
  let collisionBoundary :=
    match collisionBoundaryProp with
    | Some c => c
    | None => ManyBoundaries []                           (* line 182 *)
    end in
  let boundary :=                                         (* line 207 *)
    match collisionBoundary with
    | ManyBoundaries bs => bs
    | OneBoundary b => [b]
    end in
  let hasExplicitBoundaries :=                            (* line 208 *)
    (0 <? List.length boundary)%nat in
  {| padding := collisionPadding;
     boundary := filter isNotNull boundary;               (* line 212 *)
     altBoundary := hasExplicitBoundaries |}.

End Boundaries.

Arguments OneBoundary {Elem} b.
Arguments ManyBoundaries {Elem} bs.
Arguments mkDetectOverflowOptions {Elem Padding} padding boundary altBoundary.
Arguments padding {Elem Padding} d.
Arguments boundary {Elem Padding} d.
Arguments altBoundary {Elem Padding} d.
Arguments detectOverflowOptions {Elem Padding} collisionBoundaryProp
  collisionPadding.

Section TransformOrigin.

(** JavaScript numbers and their printing are not modelled: the numbers
    are of an arbitrary type with the operations the middleware uses. *)
Variable Num : Type.
Variable zero : Num.                        (* the literal [0] *)
Variable add : Num -> Num -> Num.           (* [a + b] *)
Variable neg : Num -> Num.                  (* [-a] *)
Variable half : Num -> Num.                 (* [a / 2] *)
Variable isZero : Num -> bool.              (* [a === 0] *)
Variable toString : Num -> string.          (* [a] inside a template *)

(** [middlewareData.arrow], written by the arrow middleware. *)
Record ArrowData := mkArrowData {
  arrow_x : option Num;
  arrow_y : option Num;
  centerOffset : Num
}.

Record Options := mkOptions {
  arrowWidth : Num;
  arrowHeight : Num
}.

(** What [fn] reads of its argument: the placement, the size of the
    floating element and the data of the arrow middleware, if it ran. *)
Record MiddlewareArguments := mkArguments {
  placement : string;
  floating_width : Num;
  floating_height : Num;
  middleware_arrow : option ArrowData
}.

(** The [data] that [fn] returns; [None] is [undefined]. *)
Record Origin := mkOrigin {
  origin_x : option string;
  origin_y : option string
}.

(** [`${n}px`] *)
Definition px (n : Num) : string := toString n ++ "px".

(** [a ?? 0] *)
Definition orZero (a : option Num) : Num :=
  match a with Some n => n | None => zero end.

(** Line 424: [middlewareData.arrow?.centerOffset !== 0]. *)
Definition cannotCenterArrow (arrow : option ArrowData) : bool :=
  match arrow with
  | Some a => negb (isZero (centerOffset a))
  | None => true                            (* [undefined !== 0] *)
  end.

(** Lines 421-452: [transformOrigin(options).fn(data)]. *)
Definition transformOrigin_fn (options : Options) (data : MiddlewareArguments)
  : Origin :=
  let isArrowHidden := cannotCenterArrow (middleware_arrow data) in
  let arrowWidth := if isArrowHidden then zero else arrowWidth options in
  let arrowHeight := if isArrowHidden then zero else arrowHeight options in
  let (placedSide, placedAlign) :=
    getSideAndAlignFromPlacement (placement data) in
  let noArrowAlign :=                                     (* line 430 *)
    lookup [("start", "0%"); ("center", "50%"); ("end", "100%")]
           placedAlign in
  let arrowXCenter :=
    add (orZero (match middleware_arrow data with
                 | Some a => arrow_x a | None => None end))
        (half arrowWidth) in
  let arrowYCenter :=
    add (orZero (match middleware_arrow data with
                 | Some a => arrow_y a | None => None end))
        (half arrowHeight) in
  if placedSide =? "bottom" then
    mkOrigin (if isArrowHidden then noArrowAlign else Some (px arrowXCenter))
             (Some (px (neg arrowHeight)))
  else if placedSide =? "top" then
    mkOrigin (if isArrowHidden then noArrowAlign else Some (px arrowXCenter))
             (Some (px (add (floating_height data) arrowHeight)))
  else if placedSide =? "right" then
    mkOrigin (Some (px (neg arrowHeight)))
             (if isArrowHidden then noArrowAlign else Some (px arrowYCenter))
  else if placedSide =? "left" then
    mkOrigin (Some (px (add (floating_width data) arrowHeight)))
             (if isArrowHidden then noArrowAlign else Some (px arrowYCenter))
  else mkOrigin (Some "") (Some "").                      (* lines 435-436 *)

End TransformOrigin.

Arguments mkArrowData {Num} arrow_x arrow_y centerOffset.
Arguments arrow_x {Num} a.
Arguments arrow_y {Num} a.
Arguments centerOffset {Num} a.
Arguments mkOptions {Num} arrowWidth arrowHeight.
Arguments arrowWidth {Num} o.
Arguments arrowHeight {Num} o.
Arguments mkArguments {Num} placement floating_width floating_height
  middleware_arrow.
Arguments placement {Num} m.
Arguments floating_width {Num} m.
Arguments floating_height {Num} m.
Arguments middleware_arrow {Num} m.
Arguments px {Num} toString n.
Arguments orZero {Num} zero a.
Arguments cannotCenterArrow {Num} isZero arrow.
Arguments transformOrigin_fn {Num} zero add neg half isZero toString
  options data.

Section Middleware.

Variable Num : Type.
Variable add : Num -> Num -> Num.
Variable Elem : Type.
Variable Padding : Type.
Variable ArrowElem : Type.                  (* the arrow, a [span] element *)

(** The middleware of [@floating-ui/react-dom] are built by imported
    functions; each is recorded here with the arguments it was built
    from. *)
Inductive Middleware :=
| offset (mainAxis alignmentAxis : Num)
| shift (mainAxis crossAxis : bool) (limitShift : bool)
        (options : DetectOverflowOptions Elem Padding)
| floatingUIarrow (element : ArrowElem) (padding : Num)
| flip (options : DetectOverflowOptions Elem Padding)
| transformOrigin (options : Options Num)
| hide (strategy : string).

(** Lines 222-236: the middleware handed to [useFloating], in order, the
    ones that are switched off filtered out. *)
Definition middleware
           (sideOffset alignOffset arrowPadding : Num) (sticky : string)
           (hideWhenDetached avoidCollisions : bool)
           (arrow : option ArrowElem) (arrowWidth arrowHeight : Num)
           (detectOverflowOptions : DetectOverflowOptions Elem Padding)
  : list (option Middleware) :=
  filter isDefined
    [ Some (offset (add sideOffset arrowHeight) alignOffset);
      if avoidCollisions
      then Some (shift true false (sticky =? "partial") detectOverflowOptions)
      else None;
      match arrow with
      | Some element => Some (floatingUIarrow element arrowPadding)
      | None => None
      end;
      if avoidCollisions then Some (flip detectOverflowOptions) else None;
      Some (transformOrigin (mkOptions arrowWidth arrowHeight));
      if hideWhenDetached then Some (hide "referenceHidden") else None ].

(** The place of a middleware in the order of lines 223-235. *)
Definition rank (m : option Middleware) : nat :=
  match m with
  | Some (offset _ _) => 1%nat
  | Some (shift _ _ _ _) => 2%nat
  | Some (floatingUIarrow _ _) => 3%nat
  | Some (flip _) => 4%nat
  | Some (transformOrigin _) => 5%nat
  | Some (hide _) => 6%nat
  | None => 0%nat
  end.

End Middleware.

Arguments offset {Num Elem Padding ArrowElem} mainAxis alignmentAxis.
Arguments shift {Num Elem Padding ArrowElem} mainAxis crossAxis limitShift
  options.
Arguments floatingUIarrow {Num Elem Padding ArrowElem} element padding.
Arguments flip {Num Elem Padding ArrowElem} options.
Arguments transformOrigin {Num Elem Padding ArrowElem} options.
Arguments hide {Num Elem Padding ArrowElem} strategy.
Arguments middleware {Num} add {Elem Padding ArrowElem} sideOffset
  alignOffset arrowPadding sticky hideWhenDetached avoidCollisions arrow
  arrowWidth arrowHeight detectOverflowOptions.
Arguments rank {Num Elem Padding ArrowElem} m.

End Popper.

(** Integers as numbers, printed in decimal, to run the middleware on
    examples. *)
Definition printZ (z : Z) : string := NilZero.string_of_int (Z.to_int z).

Definition transformOriginZ
  : Popper.Options Z -> Popper.MiddlewareArguments Z -> Popper.Origin :=
  Popper.transformOrigin_fn 0 Z.add Z.opp (fun z => z / 2) (Z.eqb 0) printZ.

(* ===================================================================== *)
(** ** Running the embedding on examples *)
(* ===================================================================== *)

Example createNodeFresh_paragraphHi :
  createNodeFresh paragraphHi =
  Some (ElementNode "k0" [("type", "paragraph")]
          [TextNode (mkText "k1" "Hi" [] None)]).
Proof. reflexivity. Qed.

Example createNodeFresh_emptyValue :
  createNodeFresh emptyValue =
  Some (ElementNode "k0" [("type", "paragraph")] []).
Proof. reflexivity. Qed.

Example createNodeFresh_nestedValue :
  createNodeFresh nestedValue =
  Some (ElementNode "k0" [("type", "a")]
          [TextNode (mkText "k1" "q" [] None);
           ElementNode "k2" [("type", "b")] []]).
Proof. reflexivity. Qed.

Example scenarioA :
  createRangefromOp createNodeFresh
    (mkOp (OP_INSERT_TEXT " world") "T1" 5 (Some textT1))
  = Returns (Some (mkRange "T1" 11 "T1" 11)).
Proof. reflexivity. Qed.

Example scenarioC :
  createRangefromOp createNodeFresh
    (mkOp (OP_DELETE_TEXT 3)
          "T2" 2 (Some (TextNode (mkText "T2" "abf" [] None))))
  = Returns (Some (mkRange "T2" 2 "T2" 2)).
Proof. reflexivity. Qed.

Example scenarioB :
  createRangefromOp createNodeFresh
    (mkOp (OP_INSERT_NODE paragraphHi) "E1" 0 (Some emptyE1))
  = Returns (Some (mkRange "k1" 2 "k1" 2)).
Proof. vm_compute. reflexivity. Qed.

Example while_loop_ex :
  while_loop (ElementNode "a" [] [TextNode (mkText "x" "q" [] None);
                                  ElementNode "b" [] [ElementNode "c" [] []]])
             "t" 7
  = (FellOut "b" 1, [ElementNode "a" [] [TextNode (mkText "x" "q" [] None);
                                  ElementNode "b" [] [ElementNode "c" [] []]];
                     ElementNode "b" [] [ElementNode "c" [] []];
                     ElementNode "c" [] []]).
Proof. vm_compute. reflexivity. Qed.

(* ===================================================================== *)
(** ** The loop: unfolding, measure, runs *)
(* ===================================================================== *)

(** The loop written as its one-pass unfolding. *)
Lemma while_loop_step (child : NodeInterface) (key : Key) (offset : Z) :
  while_loop child key offset =
  match loop_body child key offset with
  | Continue child' key' offset' =>
      visit child (while_loop child' key' offset')
  | Break key' offset' => (FellOut key' offset', [child])
  | ReturnFrom last r => (Returned r, [child; TextNode last])
  end.
Proof.
  rewrite while_loop_equation_1.
  destruct (inspect (loop_body child key offset)) as [s Hs].
  destruct s; simpl; rewrite Hs; reflexivity.
Qed.

Lemma list_max_In (x : nat) (l : list nat) :
  In x l -> (x <= list_max l)%nat.
Proof.
  induction l as [|y l IH]; simpl; intros H; [contradiction|].
  destruct H as [->|H]; [lia|]. specialize (IH H). lia.
Qed.

Lemma last_of_In (cs : list NodeInterface) (l : NodeInterface) :
  Element.last_of cs = Some l -> In l cs.
Proof.
  induction cs as [|c cs IH]; simpl; [discriminate|].
  destruct cs as [|c' cs'].
  - intros [= ->]. now left.
  - intros H. right. now apply IH.
Qed.

(** The last child of a node lies strictly less deep than the node. *)
Lemma last_depth_lt (n l : NodeInterface) :
  Element.last n = Some l -> (depth l < depth n)%nat.
Proof.
  destruct n as [t|k d cs]; unfold Element.last; simpl; [discriminate|].
  intros H. apply last_of_In in H.
  destruct cs as [|c cs]; [contradiction|].
  apply Nat.lt_succ_r, list_max_In, in_map, H.
Qed.

(** Each pass that goes round again does so on a node of smaller depth. *)
Lemma loop_body_decreases (child : NodeInterface) (key : Key) (offset : Z)
      (child' : NodeInterface) (key' : Key) (offset' : Z) :
  loop_body child key offset = Continue child' key' offset' ->
  (depth child' < depth child)%nat.
Proof.
  unfold loop_body.
  destruct (Element.isElement child); simpl; [|discriminate].
  destruct (Element.last child) as [l|] eqn:Hl; [|discriminate].
  destruct l; [discriminate|].
  intros [= <- _ _]. now apply last_depth_lt.
Qed.

(* --------------------------------------------------------------------- *)
(** *** One pass of the loop, case by case *)
(* --------------------------------------------------------------------- *)

Lemma last_some_isElement (n l : NodeInterface) :
  Element.last n = Some l -> Element.isElement n = true.
Proof. destruct n; [discriminate|reflexivity]. Qed.

Lemma loop_body_empty (child : NodeInterface) (key : Key) (offset : Z) :
  Element.last child = None ->
  loop_body child key offset = Break key offset.
Proof.
  intros H. unfold loop_body. rewrite H.
  now destruct (Element.isElement child).
Qed.

Lemma loop_body_last_text (child : NodeInterface) (key : Key) (offset : Z)
      (t : TextInterface) :
  Element.last child = Some (TextNode t) ->
  loop_body child key offset = ReturnFrom t (createRange t).
Proof.
  intros H. unfold loop_body.
  rewrite (last_some_isElement _ _ H), H. reflexivity.
Qed.

Lemma loop_body_last_element (child : NodeInterface) (key : Key) (offset : Z)
      (l : NodeInterface) :
  Element.last child = Some l -> Element.isElement l = true ->
  loop_body child key offset =
  Continue l (getKey child) (Element.getChildrenSize child).
Proof.
  intros H Hl. unfold loop_body.
  rewrite (last_some_isElement _ _ H), H.
  destruct l; [discriminate|reflexivity].
Qed.

Lemma loop_body_return_inv (child : NodeInterface) (key : Key) (offset : Z)
      (t : TextInterface) (r : Range) :
  loop_body child key offset = ReturnFrom t r ->
  Element.last child = Some (TextNode t) /\ r = createRange t.
Proof.
  unfold loop_body.
  destruct (Element.isElement child); simpl; [|discriminate].
  destruct (Element.last child) as [[t'|k d cs]|]; try discriminate.
  intros [= -> <-]. split; reflexivity.
Qed.

(* --------------------------------------------------------------------- *)
(** *** The loop along a last-child chain *)
(* --------------------------------------------------------------------- *)

Lemma chain_from_text (t : TextInterface) (m : NodeInterface) :
  LastChain (TextNode t) m -> m = TextNode t.
Proof.
  inversion 1; subst; [reflexivity|].
  match goal with H : Element.last (TextNode _) = Some _ |- _ =>
    discriminate H end.
Qed.

(** A chain that ends in a Text: the loop returns the caret at its end. *)
Lemma while_loop_chain_text (child : NodeInterface) (t : TextInterface) :
  LastChain child (TextNode t) -> Element.isElement child = true ->
  forall (key : Key) (offset : Z),
    fst (while_loop child key offset) = Returned (createRange t).
Proof.
  intros Hc. remember (TextNode t) as m eqn:Hm.
  induction Hc as [n|n l m Hlast Hc IH]; intros He key offset; subst.
  - discriminate He.
  - rewrite while_loop_step. destruct l as [t'|k d cs].
    + apply chain_from_text in Hc. injection Hc as <-.
      rewrite (loop_body_last_text _ key offset _ Hlast). reflexivity.
    + rewrite (loop_body_last_element _ key offset _ Hlast eq_refl). simpl.
      now apply IH.
Qed.

(** A chain down to an Element [parent] whose last child is an Element
    without children: the loop falls out with the key and the child count of
    [parent]. *)
Lemma while_loop_chain_empty (child parent e : NodeInterface) :
  LastChain child parent ->
  Element.last parent = Some e -> Element.isElement e = true ->
  Element.last e = None ->
  forall (key : Key) (offset : Z),
    fst (while_loop child key offset) =
    FellOut (getKey parent) (Element.getChildrenSize parent).
Proof.
  intros Hc Hp He Hnone.
  induction Hc as [n|n l m Hlast Hc IH]; intros key offset.
  - rewrite while_loop_step, (loop_body_last_element _ key offset _ Hp He). simpl.
    rewrite while_loop_step, (loop_body_empty _ _ _ Hnone). reflexivity.
  - assert (Hl : Element.isElement l = true).
    { inversion Hc; subst; eapply last_some_isElement; eassumption. }
    rewrite while_loop_step, (loop_body_last_element _ key offset _ Hlast Hl). simpl.
    now apply IH.
Qed.

(** The loop comes to an end, and [while_loop] is its run. *)
Lemma while_loop_runs (child : NodeInterface) :
  forall (key : Key) (offset : Z),
    LoopRuns child key offset (while_loop child key offset).
Proof.
  remember (depth child) as n eqn:Hn. revert child Hn.
  induction n as [n IH] using lt_wf_ind. intros child Hn key offset.
  rewrite while_loop_step.
  destruct (loop_body child key offset) as [c k o|k o|t r] eqn:Hstep.
  - eapply runs_continue; [eassumption|].
    eapply IH; [|reflexivity]. subst n.
    eapply loop_body_decreases; eassumption.
  - now apply runs_break.
  - now apply runs_return.
Qed.

(** A run looks at no more nodes than the depth of its start plus one. *)
Lemma while_loop_visits (child : NodeInterface) :
  forall (key : Key) (offset : Z),
    (List.length (snd (while_loop child key offset)) <= depth child + 1)%nat.
Proof.
  remember (depth child) as n eqn:Hn. revert child Hn.
  induction n as [n IH] using lt_wf_ind. intros child Hn key offset.
  rewrite while_loop_step.
  destruct (loop_body child key offset) as [c k o|k o|t r] eqn:Hstep.
  - pose proof (loop_body_decreases _ _ _ _ _ _ Hstep) as Hlt.
    specialize (IH (depth c) ltac:(lia) c eq_refl k o).
    simpl. lia.
  - simpl. lia.
  - apply loop_body_return_inv in Hstep as [Hlast _].
    apply last_depth_lt in Hlast. simpl in *. lia.
Qed.

(** The step relation is deterministic: a start has one run. *)
Lemma LoopRuns_functional (child : NodeInterface) (key : Key) (offset : Z)
      (run : LoopRun) :
  LoopRuns child key offset run -> run = while_loop child key offset.
Proof.
  induction 1 as [c k o k' o' Hb|c k o t r Hb|c k o c' k' o' run Hb _ IH];
    rewrite while_loop_step, Hb; [reflexivity|reflexivity|].
  now rewrite IH.
Qed.

(* ===================================================================== *)
(** ** Properties of [createRangefromOp] *)
(* ===================================================================== *)

(** Unfold the function on an operation whose type and node are known. *)
Ltac run_op Htype Hnode :=
  unfold createRangefromOp; rewrite Hnode, Htype; simpl.

Section Properties.

Variable createNode : NodeValue -> option NodeInterface.

(** With its node present, the function never raises a failure. *)
Lemma present_node_returns (op : Op) (target : NodeInterface) :
  op_node op = Some target ->
  exists r, createRangefromOp createNode op = Returns r.
Proof.
  intros Hnode. unfold createRangefromOp. rewrite Hnode. simpl.
  destruct (op_type op); destruct target as [t|k d cs]; simpl;
    try destruct (Text.getComposition t); eexists; reflexivity.
Qed.

(** With its node absent, the function fails at line 8, whatever the
    operation. *)
Lemma absent_node_type_error (op : Op) :
  op_node op = None ->
  createRangefromOp createNode op = Throws TypeError.
Proof.
  intros Hnode. unfold createRangefromOp. rewrite Hnode. reflexivity.
Qed.

(** Line 29 is never taken: no operation makes the function raise a
    node-not-found failure. *)
Lemma never_node_not_found (op : Op) (key : Key) :
  createRangefromOp createNode op <> Throws (NodeNotFound key).
Proof.
  destruct (op_node op) as [target|] eqn:Hnode.
  - destruct (present_node_returns op _ Hnode) as [r ->]. discriminate.
  - rewrite (absent_node_type_error op Hnode). discriminate.
Qed.

End Properties.


Section RangeLaws.

Variable createNode : NodeValue -> option NodeInterface.

(** C6.  An UpdateFormat operation on a Text node whose text has length [L]
    yields the range from [(key, 0)] to [(key, L)]: the whole text of the
    node is selected. *)
Theorem update_format_selects_span
        (op : Op) (data : Data) (t : TextInterface) (L : Z) :
  op_type op = OP_UPDATE_FORMAT data ->
  op_node op = Some (TextNode t) ->
  js_length (Text.getText t) = L ->
  createRangefromOp createNode op =
  Returns (Some (mkRange (text_key t) 0 (text_key t) L)).
Proof.
  intros Htype Hnode <-. run_op Htype Hnode. reflexivity.
Qed.

(** C5.  An UpdateData operation on a Text node with an active composition
    yields the collapsed range at [(key, composition.offset +
    length(composition.text))]; with the composition [{text: "ni",
    offset: 3}] that is [(key, 5)]. *)
Theorem update_data_tracks_composition
        (op : Op) (data : Data) (t : TextInterface) (c : Composition) :
  op_type op = OP_UPDATE_DATA data ->
  op_node op = Some (TextNode t) ->
  Text.getComposition t = Some c ->
  createRangefromOp createNode op =
    Returns (Some (RangeCtor.collapsed
                     (text_key t) (comp_offset c + js_length (comp_text c))))
  /\ (c = mkComposition "ni" 3 ->
      createRangefromOp createNode op =
      Returns (Some (mkRange (text_key t) 5 (text_key t) 5))).
Proof.
  intros Htype Hnode Hcomp.
  assert (H : createRangefromOp createNode op =
              Returns (Some (RangeCtor.collapsed (text_key t)
                               (comp_offset c + js_length (comp_text c))))).
  { run_op Htype Hnode. rewrite Hcomp. reflexivity. }
  split; [exact H|]. intros ->. exact H.
Qed.

(** C7.  An InsertText operation with offset [offset] and inserted string
    [value] yields the collapsed range at [(key, offset + length(value))],
    [key] being the key of the node the operation targets. *)
Theorem insert_text_caret_after_value
        (op : Op) (value : string) (target : NodeInterface) :
  op_type op = OP_INSERT_TEXT value ->
  op_node op = Some target ->
  createRangefromOp createNode op =
  Returns (Some (RangeCtor.collapsed
                   (getKey target) (op_offset op + js_length value))).
Proof.
  intros Htype Hnode. run_op Htype Hnode. reflexivity.
Qed.

(** C8.  A DeleteText operation yields the collapsed range at [(key,
    offset)]: the caret stays where the deletion starts. *)
Theorem delete_text_caret_stays
        (op : Op) (length : Z) (target : NodeInterface) :
  op_type op = OP_DELETE_TEXT length ->
  op_node op = Some target ->
  createRangefromOp createNode op =
  Returns (Some (RangeCtor.collapsed (getKey target) (op_offset op))).
Proof.
  intros Htype Hnode. run_op Htype Hnode. reflexivity.
Qed.

(** C9.  An UpdateData operation on a Text node without an active
    composition produces no range: the function returns nothing, which is
    neither a failure nor any range, the fallback range [(key, offset)]
    included. *)
Theorem update_data_without_composition_no_range
        (op : Op) (data : Data) (t : TextInterface) :
  op_type op = OP_UPDATE_DATA data ->
  op_node op = Some (TextNode t) ->
  Text.getComposition t = None ->
  createRangefromOp createNode op = Returns None
  /\ (forall e : Failure, createRangefromOp createNode op <> Throws e)
  /\ (forall r : Range, createRangefromOp createNode op <> Returns (Some r))
  /\ createRangefromOp createNode op <>
     Returns (Some (RangeCtor.collapsed (text_key t) (op_offset op))).
Proof.
  intros Htype Hnode Hcomp.
  assert (H : createRangefromOp createNode op = Returns None).
  { run_op Htype Hnode. rewrite Hcomp. reflexivity. }
  rewrite H. repeat split; intros; discriminate.
Qed.

(** C10.  UpdateFormat or UpdateData on an Element, and InsertNode on a
    Text, raise no failure and yield the fallback: the collapsed range at
    [(key of the target node, op.offset)]. *)
Theorem wrong_variant_falls_back (op : Op) (target : NodeInterface) :
  op_node op = Some target ->
  ((exists data, op_type op = OP_UPDATE_FORMAT data
                 \/ op_type op = OP_UPDATE_DATA data)
   /\ Element.isElement target = true)
  \/ ((exists value, op_type op = OP_INSERT_NODE value)
      /\ Text.isText target = true) ->
  createRangefromOp createNode op =
    Returns (Some (RangeCtor.collapsed (getKey target) (op_offset op)))
  /\ forall e : Failure, createRangefromOp createNode op <> Throws e.
Proof.
  intros Hnode Hcase.
  assert (H : createRangefromOp createNode op =
              Returns (Some (RangeCtor.collapsed (getKey target)
                                                 (op_offset op)))).
  { destruct Hcase as [[[data [Htype|Htype]] Hel]|[[value Htype] Htx]];
      run_op Htype Hnode; destruct target; try discriminate; reflexivity. }
  rewrite H. split; [reflexivity|]. intros e; discriminate.
Qed.

(** C2.  On an InsertNode operation whose node reference is absent the
    function fails at line 8, where it reads the key through the absent
    reference: the failure is a type error, not a node-not-found failure
    tagged with a key.  Line 29, which would raise that failure, comes
    after line 8 and is not reached. *)
Theorem insert_node_absent_node_type_error :
  createRangefromOp createNode
    (mkOp (OP_INSERT_NODE paragraphHi) "E9" 0 None) = Throws TypeError
  /\ createRangefromOp createNode
       (mkOp (OP_INSERT_NODE paragraphHi) "E9" 0 None)
     <> Throws (NodeNotFound "E9").
Proof.
  split; [reflexivity|discriminate].
Qed.

End RangeLaws.

Lemma update_format_selects_span_witness :
  createRangefromOp createNodeFresh
    (mkOp (OP_UPDATE_FORMAT [("fontSize", "28px")]) "T1" 2 (Some textT1))
  = Returns (Some (mkRange "T1" 0 "T1" 5)).
Proof.
  apply (update_format_selects_span createNodeFresh
           (mkOp (OP_UPDATE_FORMAT [("fontSize", "28px")]) "T1" 2
                 (Some textT1))
           [("fontSize", "28px")] (mkText "T1" "Hello" [] None) 5);
    reflexivity.
Defined.

Lemma update_data_tracks_composition_witness :
  createRangefromOp createNodeFresh
    (mkOp (OP_UPDATE_DATA []) "T3" 0
          (Some (TextNode (mkText "T3" "abcni" []
                                  (Some (mkComposition "ni" 3))))))
  = Returns (Some (mkRange "T3" 5 "T3" 5)).
Proof.
  apply (update_data_tracks_composition createNodeFresh
           (mkOp (OP_UPDATE_DATA []) "T3" 0
                 (Some (TextNode (mkText "T3" "abcni" []
                                         (Some (mkComposition "ni" 3))))))
           [] (mkText "T3" "abcni" [] (Some (mkComposition "ni" 3)))
           (mkComposition "ni" 3) eq_refl eq_refl eq_refl).
  reflexivity.
Defined.

Lemma insert_text_caret_after_value_witness :
  createRangefromOp createNodeFresh
    (mkOp (OP_INSERT_TEXT " world") "T1" 5 (Some textT1))
  = Returns (Some (mkRange "T1" 11 "T1" 11)).
Proof.
  apply (insert_text_caret_after_value createNodeFresh
           (mkOp (OP_INSERT_TEXT " world") "T1" 5 (Some textT1))
           " world" textT1); reflexivity.
Defined.

Lemma delete_text_caret_stays_witness :
  createRangefromOp createNodeFresh
    (mkOp (OP_DELETE_TEXT 3) "T2" 2
          (Some (TextNode (mkText "T2" "abf" [] None))))
  = Returns (Some (mkRange "T2" 2 "T2" 2)).
Proof.
  apply (delete_text_caret_stays createNodeFresh
           (mkOp (OP_DELETE_TEXT 3) "T2" 2
                 (Some (TextNode (mkText "T2" "abf" [] None))))
           3 (TextNode (mkText "T2" "abf" [] None))); reflexivity.
Defined.

Lemma update_data_without_composition_no_range_witness :
  createRangefromOp createNodeFresh
    (mkOp (OP_UPDATE_DATA [("k", "v")]) "T1" 4 (Some textT1))
  = Returns None.
Proof.
  apply (update_data_without_composition_no_range createNodeFresh
           (mkOp (OP_UPDATE_DATA [("k", "v")]) "T1" 4 (Some textT1))
           [("k", "v")] (mkText "T1" "Hello" [] None)); reflexivity.
Defined.

Lemma wrong_variant_falls_back_witness :
  createRangefromOp createNodeFresh
    (mkOp (OP_INSERT_NODE paragraphHi) "T1" 4 (Some textT1))
  = Returns (Some (mkRange "T1" 4 "T1" 4))
  /\ createRangefromOp createNodeFresh
       (mkOp (OP_UPDATE_FORMAT []) "E1" 1 (Some emptyE1))
     = Returns (Some (mkRange "E1" 1 "E1" 1)).
Proof.
  split.
  - apply (wrong_variant_falls_back createNodeFresh
             (mkOp (OP_INSERT_NODE paragraphHi) "T1" 4 (Some textT1))
             textT1 eq_refl).
    right. split; [exists paragraphHi|]; reflexivity.
  - apply (wrong_variant_falls_back createNodeFresh
             (mkOp (OP_UPDATE_FORMAT []) "E1" 1 (Some emptyE1))
             emptyE1 eq_refl).
    left. split; [exists []; left|]; reflexivity.
Defined.

(* ===================================================================== *)
(** ** InsertNode: the drill-down *)
(* ===================================================================== *)

Section DrillDown.

Variable createNode : NodeValue -> option NodeInterface.

(** InsertNode on an Element target whose value constructs an Element: the
    result is the range the loop leaves with. *)
Lemma insert_node_runs_loop
      (op : Op) (value : NodeValue) (target child : NodeInterface) :
  op_type op = OP_INSERT_NODE value ->
  op_node op = Some target ->
  Element.isElement target = true ->
  createNode value = Some child ->
  Element.isElement child = true ->
  createRangefromOp createNode op =
  Returns (Some (rangeOfExit
                   (fst (while_loop child (getKey target) (op_offset op))))).
Proof.
  intros Htype Hnode Htarget Hchild Hel. run_op Htype Hnode.
  destruct target; [discriminate|]. simpl.
  unfold insertNodeCase. rewrite Hchild.
  destruct child; [discriminate|reflexivity].
Qed.

(** C3.  InsertNode on an Element target whose value constructs a subtree
    with a last-child chain ending in a Text node, the subtree being that
    Text node included: the result is the collapsed range at (key of that
    Text node, length of its text).  Inserting [{type: "paragraph",
    children: [{text: "Hi"}]}], built as an Element whose child is the Text
    "Hi" with key [newKey], yields the collapsed range at [(newKey, 2)]. *)
Theorem insert_node_caret_at_last_text
        (op : Op) (value : NodeValue) (target child : NodeInterface) :
  op_type op = OP_INSERT_NODE value ->
  op_node op = Some target ->
  Element.isElement target = true ->
  createNode value = Some child ->
  (forall t : TextInterface,
      LastChain child (TextNode t) ->
      createRangefromOp createNode op =
      Returns (Some (RangeCtor.collapsed
                       (text_key t) (js_length (Text.getText t)))))
  /\ (forall (k newKey : Key) (d format : Data) (c : option Composition),
         value = paragraphHi ->
         child = ElementNode k d [TextNode (mkText newKey "Hi" format c)] ->
         createRangefromOp createNode op =
         Returns (Some (mkRange newKey 2 newKey 2))).
Proof.
  intros Htype Hnode Htarget Hchild.
  assert (Hgen : forall t : TextInterface,
             LastChain child (TextNode t) ->
             createRangefromOp createNode op =
             Returns (Some (RangeCtor.collapsed
                              (text_key t) (js_length (Text.getText t))))).
  { intros t Hchain. destruct child as [t'|k d cs] eqn:Hc.
    - apply chain_from_text in Hchain. injection Hchain as <-.
      run_op Htype Hnode. destruct target; [discriminate|]. simpl.
      unfold insertNodeCase. rewrite Hchild. reflexivity.
    - rewrite (insert_node_runs_loop op value target (ElementNode k d cs)
                 Htype Hnode Htarget Hchild eq_refl).
      rewrite (while_loop_chain_text (ElementNode k d cs) t Hchain eq_refl).
      reflexivity. }
  split; [exact Hgen|].
  intros k newKey d format c _ ->.
  apply (Hgen (mkText newKey "Hi" format c)).
  eapply chain_down; [reflexivity|apply chain_here].
Qed.

(** C1, as the code has it.  InsertNode on an Element target whose value
    constructs an Element [child]: when the drill-down comes to an Element
    without a last child, the result is the collapsed range at the key and
    offset held before that Element was looked at.  If [child] itself has
    no last child, these are the key of the target node and the offset of
    the operation; if the Element without a last child is the last child of
    [parent] further down the chain, they are the key and the child count
    of [parent]. *)
Theorem insert_node_empty_element_keeps_previous
        (op : Op) (value : NodeValue) (target child : NodeInterface) :
  op_type op = OP_INSERT_NODE value ->
  op_node op = Some target ->
  Element.isElement target = true ->
  createNode value = Some child ->
  Element.isElement child = true ->
  (Element.last child = None ->
   createRangefromOp createNode op =
   Returns (Some (RangeCtor.collapsed (getKey target) (op_offset op))))
  /\ (forall parent e : NodeInterface,
         LastChain child parent ->
         Element.last parent = Some e ->
         Element.isElement e = true ->
         Element.last e = None ->
         createRangefromOp createNode op =
         Returns (Some (RangeCtor.collapsed
                          (getKey parent) (Element.getChildrenSize parent)))).
Proof.
  intros Htype Hnode Htarget Hchild Hel.
  rewrite (insert_node_runs_loop op value target child
             Htype Hnode Htarget Hchild Hel).
  split.
  - intros Hnone.
    rewrite while_loop_step, (loop_body_empty _ _ _ Hnone). reflexivity.
  - intros parent e Hchain Hp He Hnone.
    rewrite (while_loop_chain_empty _ _ _ Hchain Hp He Hnone). reflexivity.
Qed.

(** C4.  InsertNode on an Element target whose value constructs an Element
    [child] of depth [D]: the drill-down loop comes to an end, having
    looked at no more than [D + 1] nodes, and the function returns the
    range the loop leaves with; every pass that goes round again does so on
    a node of smaller depth. *)
Theorem drill_down_terminates_within_depth
        (op : Op) (value : NodeValue) (target child : NodeInterface)
        (D : nat) :
  op_type op = OP_INSERT_NODE value ->
  op_node op = Some target ->
  Element.isElement target = true ->
  createNode value = Some child ->
  Element.isElement child = true ->
  depth child = D ->
  (exists run : LoopRun,
      LoopRuns child (getKey target) (op_offset op) run
      /\ (List.length (snd run) <= D + 1)%nat
      /\ createRangefromOp createNode op =
         Returns (Some (rangeOfExit (fst run))))
  /\ (forall (c c' : NodeInterface) (k k' : Key) (o o' : Z),
         loop_body c k o = Continue c' k' o' -> (depth c' < depth c)%nat).
Proof.
  intros Htype Hnode Htarget Hchild Hel <-. split.
  - exists (while_loop child (getKey target) (op_offset op)).
    split; [apply while_loop_runs|].
    split; [apply while_loop_visits|].
    now apply (insert_node_runs_loop op value target child).
  - intros c c' k k' o o'. apply loop_body_decreases.
Qed.

End DrillDown.

Lemma insert_node_caret_at_last_text_witness :
  createRangefromOp createNodeFresh (insertInto paragraphHi 0)
  = Returns (Some (mkRange "k1" 2 "k1" 2)).
Proof.
  apply (proj1 (insert_node_caret_at_last_text createNodeFresh
                  (insertInto paragraphHi 0) paragraphHi emptyE1
                  (ElementNode "k0" [("type", "paragraph")]
                     [TextNode (mkText "k1" "Hi" [] None)])
                  eq_refl eq_refl eq_refl eq_refl)
               (mkText "k1" "Hi" [] None)).
  eapply chain_down; [reflexivity|apply chain_here].
Defined.

(** C1, as stated, fails.  Inserting an Element without children into "E1"
    at offset 3 yields the range at ("E1", 3), the key of the target and
    the offset of the operation, not at ("k0", 0), the key and child count
    of the inserted Element.  Inserting an Element "k0" whose last child
    "k2" is an Element without children yields the range at ("k0", 2), the
    key and child count of the parent, not at ("k2", 0). *)
Lemma insert_node_empty_element_not_own_key :
  (createRangefromOp createNodeFresh (insertInto emptyValue 3)
   = Returns (Some (mkRange "E1" 3 "E1" 3))
   /\ createRangefromOp createNodeFresh (insertInto emptyValue 3)
      <> Returns (Some (RangeCtor.collapsed
           (getKey (ElementNode "k0" [("type", "paragraph")] []))
           (Element.getChildrenSize
              (ElementNode "k0" [("type", "paragraph")] [])))))
  /\ (createRangefromOp createNodeFresh (insertInto nestedValue 3)
      = Returns (Some (mkRange "k0" 2 "k0" 2))
      /\ createRangefromOp createNodeFresh (insertInto nestedValue 3)
         <> Returns (Some (RangeCtor.collapsed
              (getKey (ElementNode "k2" [("type", "b")] []))
              (Element.getChildrenSize
                 (ElementNode "k2" [("type", "b")] []))))).
Proof.
  repeat split; try reflexivity; vm_compute; discriminate.
Qed.

Lemma insert_node_empty_element_keeps_previous_witness :
  createRangefromOp createNodeFresh (insertInto emptyValue 3)
  = Returns (Some (mkRange "E1" 3 "E1" 3))
  /\ createRangefromOp createNodeFresh (insertInto nestedValue 3)
     = Returns (Some (mkRange "k0" 2 "k0" 2)).
Proof.
  split.
  - apply (proj1 (insert_node_empty_element_keeps_previous createNodeFresh
                    (insertInto emptyValue 3) emptyValue emptyE1
                    (ElementNode "k0" [("type", "paragraph")] [])
                    eq_refl eq_refl eq_refl eq_refl eq_refl)).
    reflexivity.
  - apply (proj2 (insert_node_empty_element_keeps_previous createNodeFresh
                    (insertInto nestedValue 3) nestedValue emptyE1
                    (ElementNode "k0" [("type", "a")]
                       [TextNode (mkText "k1" "q" [] None);
                        ElementNode "k2" [("type", "b")] []])
                    eq_refl eq_refl eq_refl eq_refl eq_refl)
                 (ElementNode "k0" [("type", "a")]
                    [TextNode (mkText "k1" "q" [] None);
                     ElementNode "k2" [("type", "b")] []])
                 (ElementNode "k2" [("type", "b")] [])).
    + apply chain_here.
    + reflexivity.
    + reflexivity.
    + reflexivity.
Defined.

Lemma drill_down_terminates_within_depth_witness :
  (exists run : LoopRun,
      LoopRuns (ElementNode "k0" [("type", "paragraph")]
                  [TextNode (mkText "k1" "Hi" [] None)]) "E1" 0 run
      /\ (List.length (snd run) <= 1 + 1)%nat
      /\ createRangefromOp createNodeFresh (insertInto paragraphHi 0)
         = Returns (Some (rangeOfExit (fst run))))
  /\ (forall (c c' : NodeInterface) (k k' : Key) (o o' : Z),
         loop_body c k o = Continue c' k' o' -> (depth c' < depth c)%nat).
Proof.
  apply (drill_down_terminates_within_depth createNodeFresh
           (insertInto paragraphHi 0) paragraphHi emptyE1
           (ElementNode "k0" [("type", "paragraph")]
              [TextNode (mkText "k1" "Hi" [] None)]) 1
           eq_refl eq_refl eq_refl eq_refl eq_refl eq_refl).
Defined.

(* ===================================================================== *)
(** ** Further properties of [createRangefromOp] *)
(* ===================================================================== *)

Lemma js_length_append (a b : string) :
  js_length (a ++ b) = js_length a + js_length b.
Proof.
  unfold js_length. rewrite <- Nat2Z.inj_add. f_equal.
  induction a as [|c a IH]; simpl; [reflexivity|now rewrite IH].
Qed.

Lemma js_length_nonneg (s : string) : 0 <= js_length s.
Proof. unfold js_length. lia. Qed.

Lemma js_length_zero (s : string) : js_length s = 0 <-> s = "".
Proof.
  unfold js_length. destruct s; simpl; split; intros H;
    try reflexivity; try discriminate; lia.
Qed.

Lemma loop_body_continue_inv (child : NodeInterface) (key : Key) (offset : Z)
      (child' : NodeInterface) (key' : Key) (offset' : Z) :
  loop_body child key offset = Continue child' key' offset' ->
  Element.last child = Some child' /\ Element.isElement child' = true
  /\ key' = getKey child /\ offset' = Element.getChildrenSize child.
Proof.
  unfold loop_body.
  destruct (Element.isElement child); simpl; [|discriminate].
  destruct (Element.last child) as [[t|k d cs]|]; try discriminate.
  intros [= <- <- <-]. repeat split; reflexivity.
Qed.

Lemma loop_body_break_inv (child : NodeInterface) (key : Key) (offset : Z)
      (key' : Key) (offset' : Z) :
  loop_body child key offset = Break key' offset' ->
  Element.last child = None /\ key' = key /\ offset' = offset.
Proof.
  unfold loop_body. destruct child as [t|k d cs]; simpl.
  - intros [= <- <-]. repeat split; reflexivity.
  - destruct (Element.last (ElementNode k d cs)) as [[t|k' d' cs']|];
      try discriminate.
    intros [= <- <-]. repeat split; reflexivity.
Qed.

Lemma last_of_snoc (cs : list NodeInterface) (l : NodeInterface) :
  Element.last_of (cs ++ [l]) = Some l.
Proof.
  induction cs as [|c cs IH]; simpl; [reflexivity|].
  destruct (cs ++ [l])%list eqn:E; [now destruct cs|exact IH].
Qed.

(** *** Last-child chains *)

Lemma chain_snoc (n p m : NodeInterface) :
  LastChain n p -> Element.last p = Some m -> LastChain n m.
Proof.
  induction 1 as [n|n l p Hl _ IH]; intros Hp.
  - eapply chain_down; [exact Hp|apply chain_here].
  - eapply chain_down; [exact Hl|now apply IH].
Qed.

Lemma chain_parent (n m : NodeInterface) :
  LastChain n m ->
  n = m \/ exists p, LastChain n p /\ Element.last p = Some m.
Proof.
  induction 1 as [n|n l m Hl _ IH]; [now left|right].
  destruct IH as [->|[p [Hc Hp]]].
  - exists n. split; [apply chain_here|exact Hl].
  - exists p. split; [|exact Hp]. eapply chain_down; eassumption.
Qed.

(** Every node has a chain end: taking the last child stops somewhere. *)
Lemma chain_end_exists (n : NodeInterface) :
  exists m, LastChain n m /\ Element.last m = None.
Proof.
  remember (depth n) as d eqn:Hd. revert n Hd.
  induction d as [d IH] using lt_wf_ind. intros n Hd.
  destruct (Element.last n) as [l|] eqn:Hl.
  - destruct (IH (depth l)) with (n := l) as [m [Hc Hm]];
      [subst d; now apply last_depth_lt|reflexivity|].
    exists m. split; [|exact Hm]. eapply chain_down; eassumption.
  - exists n. split; [apply chain_here|exact Hl].
Qed.

Lemma chain_end_unique (n m1 m2 : NodeInterface) :
  LastChain n m1 -> Element.last m1 = None ->
  LastChain n m2 -> Element.last m2 = None -> m1 = m2.
Proof.
  induction 1 as [n|n l m1 Hl _ IH]; intros H1 H2 Hn2.
  - inversion H2; subst; [reflexivity|congruence].
  - inversion H2; subst; [congruence|].
    apply IH; try assumption.
    assert (l = l0) by congruence. now subst.
Qed.

Lemma subtree_self (n : NodeInterface) : In n (subtree n).
Proof. destruct n; simpl; now left. Qed.

Lemma subtree_child (n c x : NodeInterface) :
  In c (Element.getChildren n) -> In x (subtree c) -> In x (subtree n).
Proof.
  destruct n as [t|k d cs]; simpl; [contradiction|].
  intros Hc Hx. right. apply in_flat_map. now exists c.
Qed.

Lemma chain_in_subtree (n m : NodeInterface) :
  LastChain n m -> In m (subtree n).
Proof.
  induction 1 as [n|n l m Hl _ IH]; [apply subtree_self|].
  eapply subtree_child; [|exact IH].
  apply last_of_In. exact Hl.
Qed.

(** *** Runs of the loop *)


Lemma loop_visits_linked (child : NodeInterface) (key : Key) (offset : Z) :
  exists rest, snd (while_loop child key offset) = child :: rest
               /\ lastLinked (child :: rest).
Proof.
  pose proof (while_loop_runs child key offset) as H.
  induction H as [c k o k' o' Hb|c k o t r Hb|c k o c' k' o' run Hb _ IH].
  - exists []. split; [reflexivity|exact I].
  - apply loop_body_return_inv in Hb as [Hl _].
    exists [TextNode t]. split; [reflexivity|]. split; [exact Hl|exact I].
  - apply loop_body_continue_inv in Hb as [Hl _].
    destruct IH as [rest [Hs Hlinked]].
    exists (c' :: rest). simpl. rewrite Hs.
    split; [reflexivity|]. split; [exact Hl|exact Hlinked].
Qed.


Lemma lastLinked_chain (a : NodeInterface) (l : list NodeInterface) :
  lastLinked (a :: l) -> Forall (LastChain a) (a :: l).
Proof.
  revert a. induction l as [|b l IH]; intros a H.
  - constructor; [apply chain_here|constructor].
  - destruct H as [Hab Hl]. constructor; [apply chain_here|].
    specialize (IH b Hl).
    eapply Forall_impl; [|exact IH].
    intros x Hx. eapply chain_down; eassumption.
Qed.

Section FurtherProperties.

Variable createNode : NodeValue -> option NodeInterface.

(** The result of InsertNode on an Element target, read off the end of the
    last-child chain of what [createNode] built. *)
Lemma insert_node_chain_cases
      (op : Op) (value : NodeValue) (target child m : NodeInterface) :
  op_type op = OP_INSERT_NODE value ->
  op_node op = Some target ->
  Element.isElement target = true ->
  createNode value = Some child ->
  LastChain child m -> Element.last m = None ->
  match m with
  | TextNode t =>
      createRangefromOp createNode op =
      Returns (Some (RangeCtor.collapsed
                       (text_key t) (js_length (Text.getText t))))
  | ElementNode _ _ _ =>
      (m = child
       /\ createRangefromOp createNode op =
          Returns (Some (RangeCtor.collapsed (getKey target) (op_offset op))))
      \/ (exists parent : NodeInterface,
             LastChain child parent /\ Element.last parent = Some m
             /\ createRangefromOp createNode op =
                Returns (Some (RangeCtor.collapsed
                   (getKey parent) (Element.getChildrenSize parent))))
  end.
Proof.
  intros Htype Hnode Htarget Hchild Hchain Hend.
  destruct m as [t|mk md mcs].
  - destruct child as [t'|k d cs].
    + apply chain_from_text in Hchain. injection Hchain as ->.
      run_op Htype Hnode. destruct target; [discriminate|]. simpl.
      unfold insertNodeCase. rewrite Hchild. reflexivity.
    + rewrite (insert_node_runs_loop createNode op value target
                 (ElementNode k d cs) Htype Hnode Htarget Hchild eq_refl).
      rewrite (while_loop_chain_text (ElementNode k d cs) t Hchain eq_refl).
      reflexivity.
  - destruct (chain_parent _ _ Hchain) as [->|[parent [Hcp Hp]]].
    + left. split; [reflexivity|].
      rewrite (insert_node_runs_loop createNode op value target
                 (ElementNode mk md mcs) Htype Hnode Htarget Hchild eq_refl).
      rewrite while_loop_step, (loop_body_empty _ _ _ Hend). reflexivity.
    + right. exists parent. split; [exact Hcp|]. split; [exact Hp|].
      assert (Hel : Element.isElement child = true).
      { destruct child as [t|k d cs]; [|reflexivity].
        apply chain_from_text in Hcp. subst parent. discriminate Hp. }
      rewrite (insert_node_runs_loop createNode op value target child
                 Htype Hnode Htarget Hchild Hel).
      rewrite (while_loop_chain_empty _ _ _ Hcp Hp eq_refl Hend).
      reflexivity.
Qed.




(** X4.  When nothing can be built from the value of an InsertNode
    operation, and when the kind of the operation is none of the five the
    [switch] knows, the result is the collapsed range at the key of the
    target node and the offset of the operation. *)
Theorem fallback_when_nothing_built_or_unknown_kind
        (op : Op) (target : NodeInterface) :
  op_node op = Some target ->
  (exists value, op_type op = OP_INSERT_NODE value
                 /\ createNode value = None)
  \/ (exists tag, op_type op = OP_OTHER tag) ->
  createRangefromOp createNode op =
  Returns (Some (RangeCtor.collapsed (getKey target) (op_offset op))).
Proof.
  intros Hnode [[value [Htype Hnone]]|[tag Htype]]; run_op Htype Hnode.
  - destruct target; simpl; [reflexivity|].
    unfold insertNodeCase. rewrite Hnone. reflexivity.
  - reflexivity.
Qed.

(** X5.  InsertNode on an Element target: the last-child chain of the
    node that was built has exactly one end, and the end decides the
    result.  A Text at the end gives the caret at the end of that Text; the
    built Element being itself the end (it has no children) gives the
    fallback at the target; any other Element at the end gives the key and
    child count of its parent on the chain. *)
Theorem insert_node_range_follows_chain_end
        (op : Op) (value : NodeValue) (target child : NodeInterface) :
  op_type op = OP_INSERT_NODE value ->
  op_node op = Some target ->
  Element.isElement target = true ->
  createNode value = Some child ->
  exists m : NodeInterface,
    LastChain child m /\ Element.last m = None
    /\ (forall m', LastChain child m' -> Element.last m' = None -> m' = m)
    /\ match m with
       | TextNode t =>
           createRangefromOp createNode op =
           Returns (Some (RangeCtor.collapsed
                            (text_key t) (js_length (Text.getText t))))
       | ElementNode _ _ _ =>
           (m = child
            /\ createRangefromOp createNode op =
               Returns (Some (RangeCtor.collapsed
                                (getKey target) (op_offset op))))
           \/ (exists parent : NodeInterface,
                  LastChain child parent /\ Element.last parent = Some m
                  /\ createRangefromOp createNode op =
                     Returns (Some (RangeCtor.collapsed
                        (getKey parent) (Element.getChildrenSize parent))))
       end.
Proof.
  intros Htype Hnode Htarget Hchild.
  destruct (chain_end_exists child) as [m [Hchain Hend]].
  exists m. split; [exact Hchain|]. split; [exact Hend|]. split.
  - intros m' Hc' He'. eapply chain_end_unique; eassumption.
  - eapply insert_node_chain_cases; eassumption.
Qed.


(** X8.  InsertNode on an Element target: when the node that was built is
    a Text or has at least one child, the result is the caret at the end of
    a node of the built subtree: its key is the key of that node and its
    offset the length of the text, or the child count, of that node. *)
Theorem insert_node_caret_at_end_of_built_node
        (op : Op) (value : NodeValue) (target child : NodeInterface) :
  op_type op = OP_INSERT_NODE value ->
  op_node op = Some target ->
  Element.isElement target = true ->
  createNode value = Some child ->
  Text.isText child = true \/ Element.last child <> None ->
  exists n : NodeInterface,
    In n (subtree child)
    /\ createRangefromOp createNode op =
       Returns (Some (RangeCtor.collapsed (getKey n) (extent n)))
    /\ 0 <= extent n.
Proof.
  intros Htype Hnode Htarget Hchild Hne.
  destruct (chain_end_exists child) as [m [Hchain Hend]].
  pose proof (insert_node_chain_cases op value target child m
                Htype Hnode Htarget Hchild Hchain Hend) as Hcases.
  destruct m as [t|mk md mcs].
  - exists (TextNode t). split; [now apply chain_in_subtree|].
    split; [exact Hcases|apply js_length_nonneg].
  - destruct Hcases as [[<- _]|[parent [Hcp [Hp Hres]]]].
    + destruct Hne as [Hne|Hne]; [discriminate|contradiction].
    + exists parent. split; [now apply chain_in_subtree|].
      destruct parent as [t|pk pd pcs]; [discriminate Hp|].
      split; [exact Hres|]. unfold extent, Element.getChildrenSize. lia.
Qed.

End FurtherProperties.

(** X7.  InsertNode on an Element target: of the Element that was built,
    only the key, the number of children and the last child enter the
    result.  The data of the Element and its children before the last make
    no difference. *)
Theorem insert_node_depends_on_last_child_only
        (createNode1 createNode2 : NodeValue -> option NodeInterface)
        (op : Op) (value : NodeValue) (target l : NodeInterface)
        (k : Key) (d1 d2 : Data) (cs1 cs2 : list NodeInterface) :
  op_type op = OP_INSERT_NODE value ->
  op_node op = Some target ->
  Element.isElement target = true ->
  createNode1 value = Some (ElementNode k d1 (cs1 ++ [l])) ->
  createNode2 value = Some (ElementNode k d2 (cs2 ++ [l])) ->
  List.length cs1 = List.length cs2 ->
  createRangefromOp createNode1 op = createRangefromOp createNode2 op.
Proof.
  intros Htype Hnode Htarget H1 H2 Hlen.
  rewrite (insert_node_runs_loop createNode1 op value target _
             Htype Hnode Htarget H1 eq_refl).
  rewrite (insert_node_runs_loop createNode2 op value target _
             Htype Hnode Htarget H2 eq_refl).
  assert (E1 : Element.last (ElementNode k d1 (cs1 ++ [l])) = Some l)
    by apply last_of_snoc.
  assert (E2 : Element.last (ElementNode k d2 (cs2 ++ [l])) = Some l)
    by apply last_of_snoc.
  rewrite (while_loop_step (ElementNode k d1 (cs1 ++ [l]))),
          (while_loop_step (ElementNode k d2 (cs2 ++ [l]))).
  destruct l as [t|lk ld lcs].
  - rewrite (loop_body_last_text _ _ _ _ E1),
            (loop_body_last_text _ _ _ _ E2). reflexivity.
  - rewrite (loop_body_last_element _ _ _ _ E1 eq_refl),
            (loop_body_last_element _ _ _ _ E2 eq_refl).
    unfold Element.getChildrenSize. simpl.
    rewrite !length_app, Hlen. reflexivity.
Qed.

(** X9.  The nodes the drill-down loop looks at are the last-child chain
    of the node it starts on: the first is that node, every further one is
    the last child of the one before it, and all of them belong to the
    subtree of the start. *)
Theorem drill_down_visits_last_child_chain
        (child : NodeInterface) (key : Key) (offset : Z) :
  exists rest : list NodeInterface,
    snd (while_loop child key offset) = child :: rest
    /\ lastLinked (child :: rest)
    /\ Forall (fun n => In n (subtree child)) (child :: rest).
Proof.
  destruct (loop_visits_linked child key offset) as [rest [Hs Hl]].
  exists rest. split; [exact Hs|]. split; [exact Hl|].
  eapply Forall_impl; [|apply lastLinked_chain, Hl].
  intros n Hn. now apply chain_in_subtree.
Qed.

(** X10.  The caret of InsertText adds up: inserting [b] where the
    insertion of [a] left the caret gives the range of inserting [a ++ b]
    at once.  Inserting the empty string leaves the caret where DeleteText
    leaves it. *)
Theorem insert_text_caret_adds_up
        (createNode : NodeValue -> option NodeInterface)
        (target : NodeInterface) (k : Key) (o : Z) (a b : string) (r : Range) :
  createRangefromOp createNode (mkOp (OP_INSERT_TEXT a) k o (Some target))
  = Returns (Some r) ->
  createRangefromOp createNode
    (mkOp (OP_INSERT_TEXT b) k (anchorOffset r) (Some target))
  = createRangefromOp createNode
      (mkOp (OP_INSERT_TEXT (a ++ b)) k o (Some target))
  /\ forall len : Z,
       createRangefromOp createNode
         (mkOp (OP_INSERT_TEXT "") k o (Some target))
       = createRangefromOp createNode
           (mkOp (OP_DELETE_TEXT len) k o (Some target)).
Proof.
  unfold createRangefromOp. simpl. intros [= <-]. simpl. split.
  - rewrite js_length_append, Z.add_assoc. reflexivity.
  - intros len. rewrite Z.add_0_r. reflexivity.
Qed.


Lemma fallback_when_nothing_built_or_unknown_kind_witness :
  createRangefromOp (fun _ => None) (insertInto paragraphHi 4)
  = Returns (Some (mkRange "E1" 4 "E1" 4))
  /\ createRangefromOp createNodeFresh
       (mkOp (OP_OTHER "deleteNode") "E1" 1 (Some emptyE1))
     = Returns (Some (mkRange "E1" 1 "E1" 1)).
Proof.
  split.
  - apply (fallback_when_nothing_built_or_unknown_kind (fun _ => None)
             (insertInto paragraphHi 4) emptyE1 eq_refl).
    left. exists paragraphHi. split; reflexivity.
  - apply (fallback_when_nothing_built_or_unknown_kind createNodeFresh
             (mkOp (OP_OTHER "deleteNode") "E1" 1 (Some emptyE1))
             emptyE1 eq_refl).
    right. exists "deleteNode". reflexivity.
Defined.

Lemma insert_node_range_follows_chain_end_witness :
  exists m : NodeInterface,
    LastChain (ElementNode "k0" [("type", "a")]
                 [TextNode (mkText "k1" "q" [] None);
                  ElementNode "k2" [("type", "b")] []]) m
    /\ Element.last m = None.
Proof.
  destruct (insert_node_range_follows_chain_end createNodeFresh
              (insertInto nestedValue 3) nestedValue emptyE1
              (ElementNode "k0" [("type", "a")]
                 [TextNode (mkText "k1" "q" [] None);
                  ElementNode "k2" [("type", "b")] []])
              eq_refl eq_refl eq_refl eq_refl) as [m [Hc [He _]]].
  exists m. split; assumption.
Defined.


Lemma insert_node_depends_on_last_child_only_witness :
  createRangefromOp createNodeFresh (insertInto nestedValue 3)
  = createRangefromOp
      (fun _ => Some (ElementNode "k0" []
                        [ElementNode "z" [] [textT1];
                         ElementNode "k2" [("type", "b")] []]))
      (insertInto nestedValue 3).
Proof.
  apply (insert_node_depends_on_last_child_only createNodeFresh
           (fun _ => Some (ElementNode "k0" []
                             [ElementNode "z" [] [textT1];
                              ElementNode "k2" [("type", "b")] []]))
           (insertInto nestedValue 3) nestedValue emptyE1
           (ElementNode "k2" [("type", "b")] [])
           "k0" [("type", "a")] []
           [TextNode (mkText "k1" "q" [] None)]
           [ElementNode "z" [] [textT1]]
           eq_refl eq_refl eq_refl eq_refl eq_refl eq_refl).
Defined.

Lemma insert_node_caret_at_end_of_built_node_witness :
  exists n : NodeInterface,
    In n (subtree (ElementNode "k0" [("type", "paragraph")]
                     [TextNode (mkText "k1" "Hi" [] None)]))
    /\ createRangefromOp createNodeFresh (insertInto paragraphHi 0)
       = Returns (Some (RangeCtor.collapsed (getKey n) (extent n)))
    /\ 0 <= extent n.
Proof.
  apply (insert_node_caret_at_end_of_built_node createNodeFresh
           (insertInto paragraphHi 0) paragraphHi emptyE1
           (ElementNode "k0" [("type", "paragraph")]
              [TextNode (mkText "k1" "Hi" [] None)])
           eq_refl eq_refl eq_refl eq_refl).
  right. discriminate.
Defined.

Lemma insert_text_caret_adds_up_witness :
  createRangefromOp createNodeFresh
    (mkOp (OP_INSERT_TEXT "world") "T1" 6 (Some textT1))
  = createRangefromOp createNodeFresh
      (mkOp (OP_INSERT_TEXT (" " ++ "world")) "T1" 5 (Some textT1)).
Proof.
  apply (insert_text_caret_adds_up createNodeFresh textT1 "T1" 5
           " " "world" (mkRange "T1" 6 "T1" 6) eq_refl).
Defined.

(* ===================================================================== *)
(** ** Properties of the placement helpers of popper.tsx *)
(* ===================================================================== *)

Lemma append_empty_r (s : string) : s ++ "" = s.
Proof. induction s; simpl; [reflexivity|now f_equal]. Qed.

Lemma split_without_separator (sep : Ascii.ascii) (s : string) :
  Popper.contains sep s = false -> Popper.split sep s = (s, []).
Proof.
  induction s as [|c s IH]; simpl; [reflexivity|].
  intros H. apply Bool.orb_false_iff in H as [Hc Hs].
  rewrite (IH Hs), Hc. reflexivity.
Qed.

Lemma split_at_separator (sep : Ascii.ascii) (a b : string) :
  Popper.contains sep a = false ->
  Popper.split sep (a ++ String sep b) =
  (a, fst (Popper.split sep b) :: snd (Popper.split sep b)).
Proof.
  induction a as [|c a IH]; simpl.
  - intros _. destruct (Popper.split sep b). now rewrite Ascii.eqb_refl.
  - intros H. apply Bool.orb_false_iff in H as [Hc Ha].
    rewrite (IH Ha), Hc. reflexivity.
Qed.

(** The pieces of a split contain no separator. *)
Lemma split_pieces_clean (sep : Ascii.ascii) (s : string) :
  Popper.contains sep (fst (Popper.split sep s)) = false
  /\ Forall (fun piece => Popper.contains sep piece = false)
            (snd (Popper.split sep s)).
Proof.
  induction s as [|c s [IH1 IH2]]; simpl; [now split|].
  destruct (Popper.split sep s) as [piece pieces]. simpl in *.
  destruct (Ascii.eqb c sep) eqn:Hc; simpl.
  - split; [reflexivity|]. now constructor.
  - rewrite Hc, IH1. now split.
Qed.

(** Joining the pieces with the separator gives the string back. *)
Lemma split_join (sep : Ascii.ascii) (s : string) :
  s = fst (Popper.split sep s) ++ Popper.joinTail sep (snd (Popper.split sep s)).
Proof.
  induction s as [|c s IH]; simpl; [reflexivity|].
  destruct (Popper.split sep s) as [piece pieces]. simpl in *.
  destruct (Ascii.eqb c sep) eqn:Hc; simpl.
  - apply Ascii.eqb_eq in Hc. subst c. now rewrite <- IH.
  - now rewrite <- IH.
Qed.

Lemma split_no_pieces (sep : Ascii.ascii) (s : string) :
  snd (Popper.split sep s) = [] <-> Popper.contains sep s = false.
Proof.
  split.
  - induction s as [|c s IH]; simpl; [reflexivity|].
    destruct (Popper.split sep s) as [piece pieces]. simpl in *.
    destruct (Ascii.eqb c sep); simpl; [discriminate|exact IH].
  - intros H. now rewrite (split_without_separator _ _ H).
Qed.

(** The round trip for any two strings without a ['-']. *)
Lemma placement_round_trip_without_dash (side align : string) :
  Popper.contains Popper.dash side = false ->
  Popper.contains Popper.dash align = false ->
  Popper.getSideAndAlignFromPlacement (Popper.desiredPlacement side align)
  = (side, align).
Proof.
  intros Hs Ha. unfold Popper.getSideAndAlignFromPlacement,
                       Popper.desiredPlacement.
  destruct (align =? "center") eqn:Hc.
  - apply String.eqb_eq in Hc. subst align.
    change (side ++ (if negb true then "-" ++ "center" else ""))
      with (side ++ "").
    rewrite append_empty_r, (split_without_separator _ _ Hs). reflexivity.
  - change (side ++ (if negb false then "-" ++ align else ""))
      with (side ++ String Popper.dash align).
    rewrite (split_at_separator _ _ align Hs),
            (split_without_separator _ _ Ha). reflexivity.
Qed.

Lemma options_without_dash :
  Forall (fun s => Popper.contains Popper.dash s = false)
         (Popper.SIDE_OPTIONS ++ Popper.ALIGN_OPTIONS).
Proof. repeat constructor. Qed.

(** The round trip for the sides and aligns the component is typed for. *)
Lemma round_trip_of_options (side align : string) :
  In side Popper.SIDE_OPTIONS -> In align Popper.ALIGN_OPTIONS ->
  Popper.getSideAndAlignFromPlacement (Popper.desiredPlacement side align)
  = (side, align).
Proof.
  intros Hs Ha. pose proof options_without_dash as H.
  rewrite Forall_forall in H.
  apply placement_round_trip_without_dash; apply H, in_or_app;
    [now left|now right].
Qed.

(** X11.  For every side of [SIDE_OPTIONS] and every align of
    [ALIGN_OPTIONS], [getSideAndAlignFromPlacement] gives back the side and
    the align the placement of line 200 was composed of; two placements so
    composed are equal only when side and align are. *)
Theorem placement_round_trip (side align : string) :
  In side Popper.SIDE_OPTIONS -> In align Popper.ALIGN_OPTIONS ->
  Popper.getSideAndAlignFromPlacement (Popper.desiredPlacement side align)
  = (side, align)
  /\ forall side' align' : string,
       In side' Popper.SIDE_OPTIONS -> In align' Popper.ALIGN_OPTIONS ->
       Popper.desiredPlacement side align
       = Popper.desiredPlacement side' align' ->
       side = side' /\ align = align'.
Proof.
  intros Hs Ha. split; [now apply round_trip_of_options|].
  intros side' align' Hs' Ha' Heq.
  pose proof (round_trip_of_options side align Hs Ha) as H1.
  rewrite Heq, (round_trip_of_options side' align' Hs' Ha') in H1.
  injection H1 as -> ->. split; reflexivity.
Qed.

Lemma placement_round_trip_witness :
  Popper.getSideAndAlignFromPlacement (Popper.desiredPlacement "top" "start")
  = ("top", "start").
Proof.
  apply (placement_round_trip "top" "start").
  - simpl. tauto.
  - simpl. tauto.
Defined.

(** X12.  What [getSideAndAlignFromPlacement] returns for any string: side
    and align contain no ['-']; a placement without ['-'] is returned whole
    as the side, with the align "center"; a placement with one starts with
    the side, a ['-'] and the align, and whatever follows the align, from a
    second ['-'] on, is dropped. *)
Theorem side_and_align_of_any_placement (placement : string) :
  let (side, align) := Popper.getSideAndAlignFromPlacement placement in
  Popper.contains Popper.dash side = false
  /\ Popper.contains Popper.dash align = false
  /\ (Popper.contains Popper.dash placement = false ->
      side = placement /\ align = "center")
  /\ (Popper.contains Popper.dash placement = true ->
      exists dropped : string,
        placement = side ++ "-" ++ align ++ dropped
        /\ (dropped = "" \/ exists rest, dropped = "-" ++ rest)).
Proof.
  unfold Popper.getSideAndAlignFromPlacement.
  pose proof (split_pieces_clean Popper.dash placement) as [Hside Hrest].
  pose proof (split_join Popper.dash placement) as Hjoin.
  pose proof (split_no_pieces Popper.dash placement) as Hnone.
  destruct (Popper.split Popper.dash placement) as [side rest].
  simpl in *. split; [exact Hside|].
  destruct rest as [|align rest].
  - split; [reflexivity|]. split.
    + intros _. split; [|reflexivity].
      rewrite Hjoin. symmetry. apply append_empty_r.
    + intros H. destruct Hnone as [Hnone _].
      rewrite (Hnone eq_refl) in H. discriminate.
  - inversion Hrest as [|? ? Halign Hrest']; subst.
    split; [exact Halign|]. split.
    + intros H. destruct Hnone as [_ Hnone]. specialize (Hnone H).
      discriminate.
    + intros _. exists (Popper.joinTail Popper.dash rest).
      split; [reflexivity|].
      destruct rest as [|r rest]; [now left|right].
      simpl. eexists. reflexivity.
Qed.

Lemma side_and_align_of_any_placement_witness :
  Popper.getSideAndAlignFromPlacement "left-end-x" = ("left", "end")
  /\ exists dropped : string,
       "left-end-x" = "left" ++ "-" ++ "end" ++ dropped
       /\ (dropped = "" \/ exists rest, dropped = "-" ++ rest).
Proof.
  split; [reflexivity|].
  apply (side_and_align_of_any_placement "left-end-x"). reflexivity.
Defined.

(** X13.  [OPPOSITE_SIDE] has an entry for every side; the entry is a side
    again, never the side itself, and the opposite of the opposite is the
    side one started from. *)
Theorem opposite_side_involution (side : string) :
  In side Popper.SIDE_OPTIONS ->
  exists opposite : string,
    Popper.lookup Popper.OPPOSITE_SIDE side = Some opposite
    /\ In opposite Popper.SIDE_OPTIONS
    /\ opposite <> side
    /\ Popper.lookup Popper.OPPOSITE_SIDE opposite = Some side.
Proof.
  simpl. intros [<-|[<-|[<-|[<-|[]]]]]; eexists;
    (split; [reflexivity|]); (split; [simpl; tauto|]);
    (split; [discriminate|reflexivity]).
Qed.

Lemma opposite_side_involution_witness :
  exists opposite : string,
    Popper.lookup Popper.OPPOSITE_SIDE "left" = Some opposite
    /\ In opposite Popper.SIDE_OPTIONS
    /\ opposite <> "left"
    /\ Popper.lookup Popper.OPPOSITE_SIDE opposite = Some "left".
Proof.
  apply (opposite_side_involution "left"). simpl. tauto.
Defined.


Section TransformOriginFacts.

Variable Num : Type.
Variable zero : Num.
Variable add : Num -> Num -> Num.
Variable neg : Num -> Num.
Variable half : Num -> Num.
Variable isZero : Num -> bool.
Variable toString : Num -> string.

Local Abbreviation fn :=
  (Popper.transformOrigin_fn zero add neg half isZero toString).
Local Abbreviation hidden := (Popper.cannotCenterArrow isZero).
Local Abbreviation px := (Popper.px toString).

Lemma px_not_empty (n : Num) : px n <> "".
Proof.
  unfold Popper.px. destruct (toString n); discriminate.
Qed.

(** X15.  When the arrow middleware left no data, or could not centre the
    arrow, the transform origin is computed as for an arrow of no size: it
    depends neither on the [arrowWidth] and [arrowHeight] options nor on
    the position of the arrow, only on the placement and the size of the
    floating element. *)
Theorem hidden_arrow_has_no_size
        (options options' : Popper.Options Num)
        (data data' : Popper.MiddlewareArguments Num) :
  hidden (Popper.middleware_arrow data) = true ->
  hidden (Popper.middleware_arrow data') = true ->
  Popper.placement data = Popper.placement data' ->
  Popper.floating_width data = Popper.floating_width data' ->
  Popper.floating_height data = Popper.floating_height data' ->
  fn options data = fn options' data'.
Proof.
  intros H H' Hp Hw Hh. unfold Popper.transformOrigin_fn.
  rewrite H, H', Hp, Hw, Hh.
  destruct (Popper.getSideAndAlignFromPlacement (Popper.placement data'))
    as [side align].
  reflexivity.
Qed.

(** X16.  For a placement composed of a side of [SIDE_OPTIONS] and an
    align of [ALIGN_OPTIONS], both coordinates of the transform origin are
    set and not empty.  With the arrow hidden, the coordinate along the
    edge (x for top and bottom, y for left and right) is the percentage of
    the align: 0% for start, 50% for center, 100% for end. *)
Theorem origin_of_composed_placement
        (options : Popper.Options Num)
        (data : Popper.MiddlewareArguments Num) (side align : string) :
  In side Popper.SIDE_OPTIONS -> In align Popper.ALIGN_OPTIONS ->
  Popper.placement data = Popper.desiredPlacement side align ->
  (exists x y : string,
      fn options data = Popper.mkOrigin (Some x) (Some y)
      /\ x <> "" /\ y <> "")
  /\ (hidden (Popper.middleware_arrow data) = true ->
      let along :=
        if ((side =? "top") || (side =? "bottom"))%bool
        then Popper.origin_x (fn options data)
        else Popper.origin_y (fn options data) in
      along = Popper.lookup [("start", "0%"); ("center", "50%");
                             ("end", "100%")] align
      /\ along <> None).
Proof.
  intros Hs Ha Hp. unfold Popper.transformOrigin_fn. rewrite Hp.
  rewrite (round_trip_of_options side align Hs Ha).
  assert (Hpct : exists pct,
             Popper.lookup [("start", "0%"); ("center", "50%");
                            ("end", "100%")] align = Some pct
             /\ pct <> "").
  { simpl in Ha. destruct Ha as [<-|[<-|[<-|[]]]]; eexists;
      (split; [reflexivity|discriminate]). }
  destruct Hpct as [pct [-> Hpct]].
  simpl in Hs.
  destruct Hs as [<-|[<-|[<-|[<-|[]]]]]; simpl;
    destruct (hidden (Popper.middleware_arrow data)); simpl;
    (split; [eexists; eexists; split; [reflexivity|];
             split; first [apply px_not_empty|exact Hpct]
            |intros Hh;
             first [discriminate Hh
                   |cbv zeta; split; [reflexivity|discriminate]]]).
Qed.

(** X17.  For a placement whose side is none of the four sides, the empty
    string for one, no branch assigns a coordinate: both stay the empty
    string, whatever the options and the data. *)
Theorem origin_of_unknown_side
        (options : Popper.Options Num)
        (data : Popper.MiddlewareArguments Num) :
  ~ In (fst (Popper.getSideAndAlignFromPlacement (Popper.placement data)))
       Popper.SIDE_OPTIONS ->
  fn options data = Popper.mkOrigin (Some "") (Some "").
Proof.
  intros Hside. unfold Popper.transformOrigin_fn.
  destruct (Popper.getSideAndAlignFromPlacement (Popper.placement data))
    as [side align]. simpl in Hside.
  assert (Hne : forall s, In s Popper.SIDE_OPTIONS -> (side =? s) = false).
  { intros s Hs. apply String.eqb_neq. intros ->. now apply Hside. }
  rewrite !Hne by (simpl; tauto). reflexivity.
Qed.

End TransformOriginFacts.

Example transformOriginZ_bottom :
  transformOriginZ (Popper.mkOptions 10 6)
    (Popper.mkArguments "bottom-start" 120 40
       (Some (Popper.mkArrowData (Some 20) None 0)))
  = Popper.mkOrigin (Some "25px") (Some "-6px").
Proof. reflexivity. Qed.

Lemma hidden_arrow_has_no_size_witness :
  transformOriginZ (Popper.mkOptions 10 6)
    (Popper.mkArguments "top" 120 40 None)
  = transformOriginZ (Popper.mkOptions 0 0)
      (Popper.mkArguments "top" 120 40
         (Some (Popper.mkArrowData (Some 20) None 3))).
Proof.
  apply (hidden_arrow_has_no_size Z 0 Z.add Z.opp (fun z => z / 2) (Z.eqb 0)
           printZ (Popper.mkOptions 10 6) (Popper.mkOptions 0 0)
           (Popper.mkArguments "top" 120 40 None)
           (Popper.mkArguments "top" 120 40
              (Some (Popper.mkArrowData (Some 20) None 3))));
    reflexivity.
Defined.

Lemma origin_of_composed_placement_witness :
  exists x y : string,
    transformOriginZ (Popper.mkOptions 10 6)
      (Popper.mkArguments "left-end" 120 40 None)
    = Popper.mkOrigin (Some x) (Some y)
    /\ x <> "" /\ y <> "".
Proof.
  apply (origin_of_composed_placement Z 0 Z.add Z.opp (fun z => z / 2)
           (Z.eqb 0) printZ (Popper.mkOptions 10 6)
           (Popper.mkArguments "left-end" 120 40 None) "left" "end").
  - simpl. tauto.
  - simpl. tauto.
  - reflexivity.
Defined.

Lemma origin_of_unknown_side_witness :
  transformOriginZ (Popper.mkOptions 10 6)
    (Popper.mkArguments "" 120 40 None)
  = Popper.mkOrigin (Some "") (Some "").
Proof.
  apply (origin_of_unknown_side Z 0 Z.add Z.opp (fun z => z / 2) (Z.eqb 0)
           printZ (Popper.mkOptions 10 6)
           (Popper.mkArguments "" 120 40 None)).
  simpl. intros [H|[H|[H|[H|[]]]]]; discriminate H.
Defined.

(** X18.  The middleware handed to [useFloating]: none is undefined; they
    keep the order of lines 223-235 and none occurs twice; the offset and
    the transform origin are always among them, the offset first; shift and
    flip are there together, exactly when collisions are avoided, and with
    the same overflow options; the arrow middleware is there exactly when
    there is an arrow element, and hide exactly when asked for. *)
Theorem middleware_list_invariants
        (Num Elem Padding ArrowElem : Type) (add : Num -> Num -> Num)
        (sideOffset alignOffset arrowPadding : Num) (sticky : string)
        (hideWhenDetached avoidCollisions : bool)
        (arrow : option ArrowElem) (arrowWidth arrowHeight : Num)
        (options : Popper.DetectOverflowOptions Elem Padding) :
  let ms := Popper.middleware add sideOffset alignOffset arrowPadding sticky
              hideWhenDetached avoidCollisions arrow arrowWidth arrowHeight
              options in
  Forall (fun m => Popper.isDefined m = true) ms
  /\ StronglySorted lt (map Popper.rank ms)
  /\ hd_error ms
     = Some (Some (Popper.offset (add sideOffset arrowHeight) alignOffset))
  /\ In (Some (Popper.transformOrigin
                 (Popper.mkOptions arrowWidth arrowHeight))) ms
  /\ (In 2%nat (map Popper.rank ms) <-> avoidCollisions = true)
  /\ (In 4%nat (map Popper.rank ms) <-> avoidCollisions = true)
  /\ (In 3%nat (map Popper.rank ms) <-> arrow <> None)
  /\ (In 6%nat (map Popper.rank ms) <-> hideWhenDetached = true)
  /\ (forall (a b l : bool) (o1 o2 : Popper.DetectOverflowOptions Elem Padding),
         In (Some (Popper.shift a b l o1)) ms ->
         In (Some (Popper.flip o2)) ms ->
         o1 = options /\ o2 = options
         /\ a = true /\ b = false /\ l = (sticky =? "partial")).
Proof.
  destruct hideWhenDetached, avoidCollisions, arrow as [element|];
    cbn; (split; [repeat constructor|]);
    (split; [repeat constructor; lia|]);
    (split; [reflexivity|]);
    (split; [tauto|]);
    repeat split; try tauto; try discriminate; try lia;
    repeat match goal with
           | H : _ \/ _ |- _ => destruct H as [H|H]
           | H : False |- _ => contradiction
           | H : Some _ = Some _ |- _ => try discriminate H; injection H as H
           end;
    try discriminate; try lia; try tauto; congruence.
Qed.
